(** * Verification of [scripts/constants.py]

    The script evaluates a handful of closed-form expressions over
    IEEE-754 binary64 values and prints each with sixteen fractional
    digits.  Doubles are modelled by [spec_float] with the binary64
    parameters, Python's arithmetic operators by the corresponding
    correctly rounded operations together with the exceptions CPython
    raises, and [print] by appending its f-string argument to an
    explicit console, from which the text of standard output is
    rendered. *)

From Stdlib Require Import ZArith NArith QArith Qabs Qpower Lia Lqa.
From Stdlib Require Import List String Ascii Bool.
From Stdlib Require Import SpecFloat.
Import ListNotations.

Local Open Scope Z_scope.

(** ** Binary64 *)

Module Double.

Definition prec : Z := 53.
Definition emax : Z := 1024.

Definition float := spec_float.

Definition valid (x : float) : bool := valid_binary prec emax x.

Definition is_finite (x : float) : bool :=
  match x with
  | S754_zero _ | S754_finite _ _ _ => true
  | _ => false
  end.

Definition is_zero (x : float) : bool :=
  match x with
  | S754_zero _ => true
  | _ => false
  end.

Definition add : float -> float -> float := SFadd prec emax.
Definition sub : float -> float -> float := SFsub prec emax.
Definition mul : float -> float -> float := SFmul prec emax.
Definition div : float -> float -> float := SFdiv prec emax.
Definition sqrt : float -> float := SFsqrt prec emax.
Definition ltb : float -> float -> bool := SFltb.
Definition eqb : float -> float -> bool := SFeqb.

(** Conversion of a Python [int] operand (exact below 2^53, rounded to
    nearest even otherwise). *)
Definition of_int (n : Z) : float := binary_normalize prec emax n 0 false.

(** The rational [n / d] (both positive) rounded to the nearest double,
    ties to even: the value of a decimal literal. *)
Definition of_ratio (n d : positive) : float :=
  let '(q, e, l) := SFdiv_core_binary prec emax (Zpos n) 0 (Zpos d) 0 in
  binary_round_aux prec emax false q e l.

Definition pow2 (e : Z) : Q := Qpower 2 e.

Definition signed (s : bool) (m : positive) : Z :=
  if s then Zneg m else Zpos m.

(** Exact value of a finite double as a rational; the non-finite
    values are sent to 0 and are always excluded by [is_finite]. *)
Definition to_Q (x : float) : Q :=
  match x with
  | S754_finite s m e => (inject_Z (signed s m) * pow2 e)%Q
  | _ => 0%Q
  end.

Definition zero : float := S754_zero false.
Definition one : float := of_int 1.

(** A genuine double that is finite and compares above zero. *)
Definition positive_finite (x : float) : bool :=
  valid x && is_finite x && ltb zero x.

(** Strictly between 0 and 1 under the comparison of doubles. *)
Definition in_open_unit (x : float) : bool :=
  ltb zero x && ltb x one.

(** Unit in the last place of a finite non-zero double. *)
Definition ulp (x : float) : Q :=
  match x with
  | S754_finite _ _ e => pow2 e
  | _ => pow2 (emin prec emax)
  end.

(** [x] is a double, and no double is closer to the rational [r]. *)
Definition nearest_double (r : Q) (x : float) : Prop :=
  valid x = true /\ is_finite x = true /\
  forall y, valid y = true -> is_finite y = true ->
       (Qabs (to_Q x - r) <= Qabs (to_Q y - r))%Q.

(** [x] is a non-negative double, and the midpoint between [x] and any
    other non-negative double lies on the far side of the square root
    of [r]: no double is closer to that root. *)
Definition nearest_double_sqrt (r : Q) (x : float) : Prop :=
  valid x = true /\ is_finite x = true /\ (0 <= to_Q x)%Q /\
  forall y, valid y = true -> is_finite y = true -> (0 <= to_Q y)%Q ->
       let c := ((to_Q x + to_Q y) / 2)%Q in
       ((to_Q x < to_Q y)%Q -> (r <= c * c)%Q) /\
       ((to_Q y < to_Q x)%Q -> (c * c <= r)%Q).

(** Every double closer to [r] than [tol] ulps of [x] is [x] itself. *)
Definition only_double_within (tol : Q) (r : Q) (x : float) : Prop :=
  forall y, valid y = true -> is_finite y = true ->
       (Qabs (to_Q y - r) < tol * ulp x)%Q -> y = x.

(** The double of value [2 ^ j], for [j] in the normal range. *)
Definition two_pow (j : Z) : float :=
  S754_finite false 4503599627370496 (j - 52).

Definition spec_float_eq_dec (x y : float) : {x = y} + {x <> y}.
Proof.
  decide equality;
    try apply Bool.bool_dec; try apply Z.eq_dec; apply Pos.eq_dec.
Defined.

End Double.

(** ** The fragment of Python the script uses *)

Module Py.

Import Double.

(** Exceptions the operations of the script can raise in CPython. *)
Inductive exn : Type :=
| SyntaxError
| ZeroDivisionError
| ValueError
| OverflowError.

Inductive result (A : Type) : Type :=
| Ok (v : A)
| Raise (e : exn).
Arguments Ok {A} v.
Arguments Raise {A} e.

(** *** Literals *)

Definition digit_of_ascii (c : ascii) : option N :=
  let n := N_of_ascii c in
  if ((48 <=? n) && (n <=? 57))%N then Some (n - 48)%N else None.

(** Reads a run of decimal digits, returning the accumulated number,
    how many digits were read and the rest of the text. *)
Fixpoint read_digits (s : string) (acc : N) (count : nat)
  : N * nat * string :=
  match s with
  | EmptyString => (acc, count, EmptyString)
  | String c s' =>
      match digit_of_ascii c with
      | Some d => read_digits s' (10 * acc + d)%N (S count)
      | None => (acc, count, s)
      end
  end.

(** [digitpart "." digitpart], the only shape of float literal in the
    script: the result is the numerator over [10 ^ scale]. *)
Definition parse_float_literal (s : string) : option (N * nat) :=
  let '(ip, ni, rest) := read_digits s 0%N 0%nat in
  match ni, rest with
  | S _, String "."%char frac =>
      let '(num, nf, rest') := read_digits frac ip 0%nat in
      match nf, rest' with
      | S _, EmptyString => Some (num, nf)
      | _, _ => None
      end
  | _, _ => None
  end.

Definition float_literal (s : string) : result float :=
  match parse_float_literal s with
  | Some (N0, _) => Ok (S754_zero false)
  | Some (Npos n, scale) => Ok (of_ratio n (Pos.pow 10 (Pos.of_nat scale)))
  | None => Raise SyntaxError
  end.

(** *** Arithmetic operators on [float] *)

Definition float_add (x y : float) : float := add x y.
Definition float_sub (x y : float) : float := sub x y.
Definition float_mul (x y : float) : float := mul x y.

(** [x / y] raises on a zero divisor of either sign. *)
Definition float_truediv (x y : float) : result float :=
  if is_zero y then Raise ZeroDivisionError else Ok (div x y).

Definition is_nan (x : float) : bool :=
  match x with S754_nan => true | _ => false end.

Definition is_inf (x : float) : bool :=
  match x with S754_infinity _ => true | _ => false end.

(** [math.sqrt]: a NaN obtained from a non-NaN argument is a domain
    error. *)
Definition math_sqrt (x : float) : result float :=
  let r := sqrt x in
  if is_nan r && negb (is_nan x) then Raise ValueError else Ok r.

Definition odd_pos (n : positive) : bool :=
  match n with xO _ => false | _ => true end.

(** [x ** n] for a positive [int] exponent.  CPython hands the
    operands to the C library's [pow], taken here as the correctly
    rounded power; a finite base whose power leaves the range is an
    overflow error. *)
Definition float_pow (x : float) (n : positive) : result float :=
  match x with
  | S754_nan => Ok S754_nan
  | S754_infinity s => Ok (S754_infinity (s && odd_pos n))
  | S754_zero s => Ok (S754_zero (s && odd_pos n))
  | S754_finite s m e =>
      let r := binary_round prec emax (s && odd_pos n)
                 (Pos.pow m n) (e * Zpos n) in
      if is_inf r then Raise OverflowError else Ok r
  end.

(** *** Fixed-point formatting, [format(x, "0.<p>f")] *)

Definition digit_char (d : N) : ascii := ascii_of_N (48 + d).

(** The [k] low decimal digits of [n], most significant first. *)
Fixpoint low_digits (k : nat) (n : N) (acc : string) : string :=
  match k with
  | O => acc
  | S k' => low_digits k' (n / 10)%N (String (digit_char (n mod 10)%N) acc)
  end.

(** Number of decimal digits of [n] ([1] for [0]), by fuel that the
    binary size of [n] always covers. *)
Fixpoint count_digits (fuel : nat) (n : N) : nat :=
  match fuel with
  | O => 1%nat
  | S fuel' => if (n <? 10)%N then 1%nat
               else S (count_digits fuel' (n / 10)%N)
  end.

Definition string_of_N (n : N) : string :=
  low_digits (count_digits (N.to_nat (N.size n)) n) n EmptyString.

(** [m * 2^e * 10^p] rounded to the nearest integer, ties to even. *)
Definition round_scaled (m : positive) (e : Z) (p : nat) : N :=
  let num := (Npos m * 10 ^ N.of_nat p)%N in
  match e with
  | Zneg k =>
      let den := (2 ^ Npos k)%N in
      let q := (num / den)%N in
      let r := (num mod den)%N in
      match (2 * r ?= den)%N with
      | Lt => q
      | Gt => (q + 1)%N
      | Eq => if N.even q then q else (q + 1)%N
      end
  | _ => (num * 2 ^ Z.to_N e)%N
  end.

Definition sign_string (s : bool) : string :=
  if s then "-"%string else EmptyString.

(** The point and the [p] fractional digits; with [p = 0] the point is
    not written. *)
Definition fraction_string (p : nat) (frac : N) : string :=
  match p with
  | O => EmptyString
  | S _ => String "."%char (low_digits p frac EmptyString)
  end.

Definition format_f (p : nat) (x : float) : string :=
  match x with
  | S754_nan => "nan"
  | S754_infinity s => sign_string s ++ "inf"
  | S754_zero s => sign_string s ++ "0" ++ fraction_string p 0%N
  | S754_finite s m e =>
      let n := round_scaled m e p in
      let unit := (10 ^ N.of_nat p)%N in
      sign_string s ++ string_of_N (n / unit)%N
        ++ fraction_string p (n mod unit)%N
  end%string.

(** *** Formatted string literals *)

(** An f-string is a sequence of literal text and replacement fields;
    the only fields of the script are floats under [0.<p>f]. *)
Inductive part : Type :=
| Text (s : string)
| Field (x : float) (p : nat).

Definition fstring : Type := list part.

Definition render_part (q : part) : string :=
  match q with
  | Text s => s
  | Field x p => format_f p x
  end.

Fixpoint render (fs : fstring) : string :=
  match fs with
  | [] => EmptyString
  | q :: fs' => (render_part q ++ render fs')%string
  end.

(** *** Statements: standard output and exceptions *)

(** The console records the argument of every [print] call so far,
    oldest first; [stdout_text] is the character stream it stands for. *)
Definition console : Type := list fstring.

Definition newline : string := String (ascii_of_N 10) EmptyString.

Fixpoint stdout_text (out : console) : string :=
  match out with
  | [] => EmptyString
  | fs :: out' => (render fs ++ newline ++ stdout_text out')%string
  end.

Definition fields_of (fs : fstring) : list float :=
  flat_map (fun q => match q with Field x _ => [x] | Text _ => [] end) fs.

(** The floats that were formatted, in output order. *)
Definition printed_values (out : console) : list float :=
  flat_map fields_of out.

Definition py (A : Type) : Type := console -> result (A * console).

Definition ret {A} (v : A) : py A := fun out => Ok (v, out).

Definition bind {A B} (c : py A) (k : A -> py B) : py B :=
  fun out =>
    match c out with
    | Ok (v, out') => k v out'
    | Raise e => Raise e
    end.

Definition lift {A} (r : result A) : py A :=
  fun out =>
    match r with
    | Ok v => Ok (v, out)
    | Raise e => Raise e
    end.

Definition print (fs : fstring) : py unit :=
  fun out => Ok (tt, out ++ [fs]).

(** Exit status of the interpreter: 0 on normal completion, 1 when an
    exception reaches the top level. *)
Definition exit_code {A} (r : result A) : Z :=
  match r with
  | Ok _ => 0
  | Raise _ => 1
  end.

(** *** Reading the output back *)

(** The newline-terminated lines of a text; characters after the last
    newline, if any, form a final unterminated line. *)
Fixpoint split_lines_aux (s : string) (cur : string) : list string :=
  match s with
  | EmptyString =>
      match cur with
      | EmptyString => []
      | _ => [cur]
      end
  | String c s' =>
      if Ascii.eqb c (ascii_of_N 10)
      then cur :: split_lines_aux s' EmptyString
      else split_lines_aux s' (cur ++ String c EmptyString)%string
  end.

Definition split_lines (s : string) : list string :=
  split_lines_aux s EmptyString.

(** The text made of the given lines, each newline-terminated. *)
Fixpoint unlines (ls : list string) : string :=
  match ls with
  | [] => EmptyString
  | l :: ls' => (l ++ newline ++ unlines ls')%string
  end.

Definition is_digit (c : ascii) : bool :=
  match digit_of_ascii c with Some _ => true | None => false end.

Fixpoint all_digits (s : string) : bool :=
  match s with
  | EmptyString => true
  | String c s' => is_digit c && all_digits s'
  end.

(** [digits "." digits] with at least one digit before the point and
    exactly [p] after it. *)
Fixpoint is_fixed_point (p : nat) (s : string) : bool :=
  match s with
  | EmptyString => false
  | String c s' =>
      if is_digit c then
        match s' with
        | String "."%char frac =>
            all_digits frac && Nat.eqb (String.length frac) p
        | _ => is_fixed_point p s'
        end
      else false
  end.

(** No newline character occurs in the text. *)
Fixpoint no_newline (s : string) : bool :=
  match s with
  | EmptyString => true
  | String c s' => negb (Ascii.eqb c (ascii_of_N 10)) && no_newline s'
  end.

(** An f-string whose literal text holds no newline. *)
Definition one_line (fs : fstring) : bool :=
  forallb (fun q => match q with
                    | Text s => no_newline s
                    | Field _ _ => true
                    end) fs.

(** What a reader of the output gets from a printed value: the text of
    the field taken as a float literal again. *)
Definition read_back (p : nat) (x : float) : result float :=
  float_literal (format_f p x).

End Py.

(** ** The script *)

Module Constants.

Import Double Py.

Declare Scope py_scope.
Delimit Scope py_scope with py.
Notation "x <- c ;; k" := (bind c (fun x => k))
  (at level 61, c at next level, right associativity) : py_scope.
Notation "c ;; k" := (bind c (fun _ => k))
  (at level 61, right associativity) : py_scope.
Local Open Scope py_scope.
Local Open Scope string_scope.

(** The int operands [2], [1] and [3] meet a float and are converted. *)
Definition int_mul_float (n : Z) (x : float) : float :=
  float_mul (of_int n) x.
Definition int_sub_float (n : Z) (x : float) : float :=
  float_sub (of_int n) x.
Definition float_truediv_int (x : float) (n : Z) : result float :=
  float_truediv x (of_int n).

(** Module-level names bound when the script has run. *)
Record globals : Type := Globals {
  pi : float;
  a : float;
  inv_f : float;
  f : float;
  ecc2 : float;
  ecc : float;
  b : float;
  radius : float
}.

Definition main : py globals :=
  pi <- lift (float_literal "3.141592653589793238462643383279502884197") ;;
  print [Text "pi = "; Field pi 16] ;;
  c2 <- lift (float_literal "2.0") ;;
  print [Text "2pi = "; Field (float_mul c2 pi) 16] ;;
  c05 <- lift (float_literal "0.5") ;;
  print [Text "pi/2 = "; Field (float_mul c05 pi) 16] ;;
  c025 <- lift (float_literal "0.25") ;;
  print [Text "pi/4 = "; Field (float_mul c025 pi) 16] ;;
  a <- lift (float_literal "6378137.0") ;;
  inv_f <- lift (float_literal "298.257223563") ;;
  c1 <- lift (float_literal "1.0") ;;
  f <- lift (float_truediv c1 inv_f) ;;
  print [Text "f = "; Field f 16] ;;
  let two_f := int_mul_float 2 f in
  f_sq <- lift (float_pow f 2) ;;
  let ecc2 := float_sub two_f f_sq in
  print [Text "ecc2 = "; Field ecc2 16] ;;
  ecc <- lift (math_sqrt ecc2) ;;
  print [Text "ecc = "; Field ecc 16] ;;
  let b := float_mul a (int_sub_float 1 f) in
  print [Text "b = "; Field b 16] ;;
  radius <- lift (float_truediv_int
                    (float_add (int_mul_float 2 a) b) 3) ;;
  print [Text "radius = "; Field radius 16] ;;
  ret (Globals pi a inv_f f ecc2 ecc b radius).

(** Running the script starts from an empty console. *)
Definition run : result (globals * console) := main [].

(** What holds of the names and the console once the script has run
    to completion. *)
Definition script_yields (P : globals -> console -> Prop) : Prop :=
  exists g out, run = Ok (g, out) /\ P g out.

End Constants.

(** ** The procedure in the words of the specification *)

Module Spec.

Import Double.

(** Section 3 and section 4.1: each entity by its defining relation,
    with [f * f] where the script writes a power. *)
Definition pi : float :=
  of_ratio 3141592653589793238462643383279502884197 (10 ^ 39).
Definition two_pi : float := mul (of_int 2) pi.
Definition half_pi : float := mul (of_ratio 1 2) pi.
Definition quarter_pi : float := mul (of_ratio 1 4) pi.
Definition a : float := of_int 6378137.
Definition inv_f : float := of_ratio 298257223563 (10 ^ 9).
Definition f : float := div (of_int 1) inv_f.
Definition ecc2 : float := sub (mul (of_int 2) f) (mul f f).
Definition ecc : float := sqrt ecc2.
Definition b : float := mul a (sub (of_int 1) f).
Definition radius : float := div (add (mul (of_int 2) a) b) (of_int 3).

(** The printed entities, in the order of the contract. *)
Definition printed : list float :=
  [pi; two_pi; half_pi; quarter_pi; f; ecc2; ecc; b; radius].

Definition names : list string :=
  ["pi"; "2pi"; "pi/2"; "pi/4"; "f"; "ecc2"; "ecc"; "b"; "radius"]%string.

(** The output block of section 6. *)
Definition listing : list string :=
  ["pi = 3.1415926535897931";
   "2pi = 6.2831853071795862";
   "pi/2 = 1.5707963267948966";
   "pi/4 = 0.7853981633974483";
   "f = 0.0033528106647475";
   "ecc2 = 0.0066943799901414";
   "ecc = 0.0818191908426215";
   "b = 6356752.3142451793";
   "radius = 6371008.7714817859"]%string.

(** The number of lines the contract announces. *)
Definition announced_line_count : nat := 11.

End Spec.

(** ** Facts about binary64 values *)

Section DoubleFacts.

Import Double.
Import Lqa.

Lemma digits2_pos_bounds (m : positive) :
  2 ^ (Zpos (digits2_pos m) - 1) <= Zpos m < 2 ^ Zpos (digits2_pos m).
Proof.
  induction m as [m IH | m IH |]; cbn [digits2_pos].
  - rewrite Pos2Z.inj_succ.
    replace (Z.succ (Zpos (digits2_pos m)) - 1)
      with (Z.succ (Zpos (digits2_pos m) - 1)) by lia.
    rewrite !Z.pow_succ_r by lia. lia.
  - rewrite Pos2Z.inj_succ.
    replace (Z.succ (Zpos (digits2_pos m)) - 1)
      with (Z.succ (Zpos (digits2_pos m) - 1)) by lia.
    rewrite !Z.pow_succ_r by lia. lia.
  - cbn. lia.
Qed.

(** Shape of a valid finite double: the exponent is at least [emin],
    the significand has at most 53 bits, and exactly 53 above [emin]. *)
Lemma valid_finite_bounds (s : bool) (m : positive) (e : Z) :
  valid (S754_finite s m e) = true ->
  -1074 <= e /\ Zpos m < 2 ^ 53 /\ (-1074 < e -> 2 ^ 52 <= Zpos m).
Proof.
  unfold valid, valid_binary, bounded, canonical_mantissa, fexp, emin,
    prec, emax.
  intros H. apply andb_prop in H. destruct H as [H _].
  apply Z.eqb_eq in H.
  pose proof (digits2_pos_bounds m) as [Hlo Hhi].
  set (d := Zpos (digits2_pos m)) in *.
  assert (Hd : 0 < d) by (unfold d; lia).
  split; [lia|]. split.
  - assert (d <= 53) by lia.
    apply Z.lt_le_trans with (1 := Hhi).
    apply Z.pow_le_mono_r; lia.
  - intros He. assert (d = 53) by lia.
    replace 52 with (d - 1) by lia. exact Hlo.
Qed.

Lemma pow2_pos (e : Z) : (0 < pow2 e)%Q.
Proof. unfold pow2. apply Qpower_0_lt. reflexivity. Qed.

Lemma pow2_add (x y : Z) : (pow2 (x + y) == pow2 x * pow2 y)%Q.
Proof. unfold pow2. apply Qpower_plus. discriminate. Qed.

Lemma pow2_inject (n : Z) : 0 <= n -> (pow2 n == inject_Z (2 ^ n))%Q.
Proof. intros Hn. unfold pow2. symmetry. now apply Zpower_Qpower. Qed.

(** A finite double is an integer multiple of every power of two not
    above its own exponent. *)
Lemma to_Q_scaled (s : bool) (m : positive) (e e0 : Z) :
  e0 <= e ->
  (to_Q (S754_finite s m e)
   == inject_Z (signed s m * 2 ^ (e - e0)) * pow2 e0)%Q.
Proof.
  intros He. cbn [to_Q].
  replace e with ((e - e0) + e0) at 1 by lia.
  rewrite pow2_add, pow2_inject by lia.
  rewrite inject_Z_mult. ring.
Qed.

Lemma Qabs_scaled (k : Z) (e0 : Z) :
  (Qabs (inject_Z k * pow2 e0) == inject_Z (Z.abs k) * pow2 e0)%Q.
Proof.
  rewrite Qabs_Qmult. rewrite (Qabs_pos (pow2 e0)).
  - apply Qmult_comp; [|reflexivity].
    unfold Qabs, inject_Z. reflexivity.
  - apply Qlt_le_weak, pow2_pos.
Qed.

Lemma gap_from_scaled (qx qy u : Q) (kx ky P e0 : Z) :
  (qx == inject_Z kx * pow2 e0)%Q ->
  (qy == inject_Z ky * pow2 e0)%Q ->
  (u == inject_Z P * pow2 e0)%Q ->
  P <= Z.abs (ky - kx) ->
  (u <= Qabs (qy - qx))%Q.
Proof.
  intros Hx Hy Hu HP.
  assert (E : (qy - qx == inject_Z (ky - kx) * pow2 e0)%Q).
  { rewrite Hx, Hy. unfold Zminus. rewrite inject_Z_plus, inject_Z_opp.
    ring. }
  rewrite E, Qabs_scaled, Hu.
  apply Qmult_le_compat_r.
  - now rewrite <- Zle_Qle.
  - apply Qlt_le_weak, pow2_pos.
Qed.

(** Around a positive double whose significand is not the smallest of
    its binade, every other double is at least one ulp away. *)
Lemma double_gap (m : positive) (e : Z) (y : float) :
  valid (S754_finite false m e) = true ->
  2 ^ 52 < Zpos m ->
  valid y = true -> is_finite y = true ->
  y <> S754_finite false m e ->
  (pow2 e <= Qabs (to_Q y - to_Q (S754_finite false m e)))%Q.
Proof.
  intros Vx Hm Vy Fy Hne.
  pose proof (valid_finite_bounds _ _ _ Vx) as (Hex & Hmx & _).
  destruct y as [sy | sy | | sy my ey]; try discriminate Fy.
  - (* zero *)
    apply gap_from_scaled with (kx := Zpos m) (ky := 0) (P := 1) (e0 := e).
    + rewrite (to_Q_scaled false m e e) by lia.
      rewrite Z.sub_diag. cbn [signed]. now rewrite Z.pow_0_r, Z.mul_1_r.
    + cbn [to_Q]. ring.
    + ring.
    + lia.
  - pose proof (valid_finite_bounds _ _ _ Vy) as (Hey & Hmy & Hny).
    destruct (Z_le_gt_dec e ey) as [Hle | Hgt].
    + (* the other exponent is not smaller *)
      apply gap_from_scaled
        with (kx := Zpos m) (ky := signed sy my * 2 ^ (ey - e))
             (P := 1) (e0 := e).
      * rewrite (to_Q_scaled false m e e) by lia.
        rewrite Z.sub_diag. cbn [signed]. now rewrite Z.pow_0_r, Z.mul_1_r.
      * now apply to_Q_scaled.
      * ring.
      * assert (Hp : 0 < 2 ^ (ey - e)) by (apply Z.pow_pos_nonneg; lia).
        destruct sy; cbn [signed]; [nia|].
        destruct (Z.eq_dec ey e) as [-> | Hd].
        -- rewrite Z.sub_diag, Z.pow_0_r, Z.mul_1_r.
           assert (Zpos my <> Zpos m) by (intros E; apply Hne; congruence).
           lia.
        -- assert (H52 : 2 ^ 52 <= Zpos my) by (apply Hny; lia).
           assert (H2 : 2 ^ 1 <= 2 ^ (ey - e))
             by (apply Z.pow_le_mono_r; lia).
           change (2 ^ 1) with 2 in H2.
           change (2 ^ 52) with 4503599627370496 in *.
           change (2 ^ 53) with 9007199254740992 in *.
           nia.
    + (* the other exponent is smaller *)
      apply gap_from_scaled
        with (kx := Zpos m * 2 ^ (e - ey)) (ky := signed sy my)
             (P := 2 ^ (e - ey)) (e0 := ey).
      * rewrite (to_Q_scaled false m e ey) by lia. reflexivity.
      * rewrite (to_Q_scaled sy my ey ey) by lia.
        now rewrite Z.sub_diag, Z.pow_0_r, Z.mul_1_r.
      * rewrite <- pow2_inject by lia. rewrite <- pow2_add.
        replace (e - ey + ey) with e by lia. reflexivity.
      * assert (H2 : 2 ^ 1 <= 2 ^ (e - ey))
          by (apply Z.pow_le_mono_r; lia).
        change (2 ^ 1) with 2 in H2.
        change (2 ^ 52) with 4503599627370496 in *.
        change (2 ^ 53) with 9007199254740992 in *.
        destruct sy; cbn [signed]; nia.
Qed.

(** Hence a value within half an ulp of such a double has no double
    closer to it. *)
Lemma half_ulp_nearest (m : positive) (e : Z) (r : Q) :
  valid (S754_finite false m e) = true ->
  2 ^ 52 < Zpos m ->
  (Qabs (to_Q (S754_finite false m e) - r) <= pow2 e / 2)%Q ->
  nearest_double r (S754_finite false m e).
Proof.
  intros Vx Hm Hr. split; [exact Vx|]. split; [reflexivity|].
  intros y Vy Fy.
  set (x := S754_finite false m e) in *.
  destruct (spec_float_eq_dec y x) as [-> | Hne]; [apply Qle_refl|].
  pose proof (double_gap m e y Vx Hm Vy Fy Hne) as Hgap. fold x in Hgap.
  assert (Htri : (Qabs (to_Q y - to_Q x)
                  <= Qabs (to_Q y - r) + Qabs (to_Q x - r))%Q).
  { setoid_replace (to_Q y - to_Q x)%Q
      with ((to_Q y - r) + - (to_Q x - r))%Q by ring.
    eapply Qle_trans; [apply Qabs_triangle|].
    rewrite Qabs_opp. apply Qle_refl. }
  assert (Hhalf : (pow2 e == pow2 e / 2 + pow2 e / 2)%Q) by field.
  rewrite Hhalf in Hgap.
  apply Qnot_lt_le. intros Hlt.
  assert (C : (pow2 e / 2 + pow2 e / 2
               < pow2 e / 2 + pow2 e / 2)%Q).
  { eapply Qle_lt_trans; [exact Hgap|].
    eapply Qle_lt_trans; [exact Htri|].
    apply Qplus_lt_le_compat.
    - eapply Qlt_le_trans; [exact Hlt | exact Hr].
    - exact Hr. }
  exact (Qlt_irrefl _ C).
Qed.

Lemma half_ulp_nearest_sqrt (m : positive) (e : Z) (r : Q) :
  valid (S754_finite false m e) = true ->
  2 ^ 52 < Zpos m ->
  let x := to_Q (S754_finite false m e) in
  let h := (pow2 e / 2)%Q in
  (0 <= x - h)%Q ->
  ((x - h) * (x - h) <= r)%Q -> (r <= (x + h) * (x + h))%Q ->
  nearest_double_sqrt r (S754_finite false m e).
Proof.
  intros Vx Hm x h H0 Hlo Hhi.
  assert (E : (pow2 e == h + h)%Q) by (unfold h; field).
  assert (Hh : (0 < h)%Q).
  { pose proof (pow2_pos e) as Hu. rewrite E in Hu. lra. }
  assert (Hgap : forall y, valid y = true -> is_finite y = true ->
            ((to_Q y < x -> to_Q y <= x - (h + h))
             /\ (x < to_Q y -> x + (h + h) <= to_Q y))%Q).
  { intros y Vy Fy.
    destruct (spec_float_eq_dec y (S754_finite false m e)) as [-> | Hne].
    - fold x. split; intros A; exfalso; exact (Qlt_irrefl _ A).
    - pose proof (double_gap m e y Vx Hm Vy Fy Hne) as G. fold x in G.
      rewrite E in G.
      split; intros A.
      + rewrite Qabs_neg in G by lra. lra.
      + rewrite Qabs_pos in G by lra. lra. }
  split; [exact Vx|]. split; [reflexivity|]. fold x.
  clearbody x h.
  split; [lra|].
  intros y Vy Fy Hy c.
  destruct (Hgap y Vy Fy) as [Gl Gr].
  set (q := to_Q y) in *. clearbody q.
  assert (Ec : (c + c == x + q)%Q) by (unfold c; field).
  clearbody c.
  split; intros A.
  - specialize (Gr A).
    apply Qle_trans with (1 := Hhi). nra.
  - specialize (Gl A).
    apply Qle_trans with (2 := Hlo). nra.
Qed.

Lemma within_gap_unique (m : positive) (e : Z) (r tol t : Q) :
  valid (S754_finite false m e) = true ->
  2 ^ 52 < Zpos m ->
  (Qabs (to_Q (S754_finite false m e) - r) <= t * pow2 e)%Q ->
  (tol + t <= 1)%Q ->
  only_double_within tol r (S754_finite false m e).
Proof.
  intros Vx Hm Hr Htol y Vy Fy Hy.
  set (x := S754_finite false m e) in *.
  destruct (spec_float_eq_dec y x) as [-> | Hne]; [reflexivity|].
  exfalso.
  pose proof (double_gap m e y Vx Hm Vy Fy Hne) as Hgap. fold x in Hgap.
  assert (Htri : (Qabs (to_Q y - to_Q x)
                  <= Qabs (to_Q y - r) + Qabs (to_Q x - r))%Q).
  { setoid_replace (to_Q y - to_Q x)%Q
      with ((to_Q y - r) + - (to_Q x - r))%Q by ring.
    eapply Qle_trans; [apply Qabs_triangle|].
    rewrite Qabs_opp. apply Qle_refl. }
  change (ulp x) with (pow2 e) in Hy.
  pose proof (pow2_pos e) as Hu.
  set (u := pow2 e) in *. clearbody u.
  set (d1 := Qabs (to_Q y - r)) in *. clearbody d1.
  set (d2 := Qabs (to_Q x - r)) in *. clearbody d2.
  set (d3 := Qabs (to_Q y - to_Q x)) in *. clearbody d3.
  nra.
Qed.

End DoubleFacts.

(** ** Facts about fixed-point formatting *)

Section FormatFacts.

Import Double Py.

Lemma string_app_assoc (s1 s2 s3 : string) :
  ((s1 ++ s2) ++ s3 = s1 ++ (s2 ++ s3))%string.
Proof. induction s1 as [|c s1 IH]; cbn; [reflexivity | now rewrite IH]. Qed.

Lemma string_app_length (s1 s2 : string) :
  String.length (s1 ++ s2) = (String.length s1 + String.length s2)%nat.
Proof. induction s1 as [|c s1 IH]; cbn; [reflexivity | now rewrite IH]. Qed.

Lemma all_digits_app (s1 s2 : string) :
  all_digits (s1 ++ s2) = all_digits s1 && all_digits s2.
Proof.
  induction s1 as [|c s1 IH]; cbn; [reflexivity|].
  now rewrite IH, andb_assoc.
Qed.

Lemma digit_of_digit_char (d : N) :
  (d < 10)%N -> digit_of_ascii (digit_char d) = Some d.
Proof.
  intros Hd. unfold digit_of_ascii, digit_char.
  rewrite N_ascii_embedding by lia.
  replace ((48 <=? 48 + d)%N) with true by (symmetry; apply N.leb_le; lia).
  replace ((48 + d <=? 57)%N) with true by (symmetry; apply N.leb_le; lia).
  cbn [andb]. f_equal. lia.
Qed.

Lemma low_digits_app (k : nat) (n : N) (acc : string) :
  low_digits k n acc = (low_digits k n EmptyString ++ acc)%string.
Proof.
  revert n acc. induction k as [|k IH]; intros n acc; cbn [low_digits].
  - reflexivity.
  - rewrite IH. rewrite (IH _ (String _ EmptyString)).
    now rewrite string_app_assoc.
Qed.

Lemma low_digits_length (k : nat) (n : N) :
  String.length (low_digits k n EmptyString) = k.
Proof.
  revert n. induction k as [|k IH]; intros n; cbn [low_digits].
  - reflexivity.
  - rewrite low_digits_app, string_app_length, IH. cbn. lia.
Qed.

Lemma low_digits_all_digits (k : nat) (n : N) :
  all_digits (low_digits k n EmptyString) = true.
Proof.
  revert n. induction k as [|k IH]; intros n; cbn [low_digits].
  - reflexivity.
  - rewrite low_digits_app, all_digits_app, IH. cbn.
    unfold is_digit. rewrite digit_of_digit_char; [reflexivity|].
    apply N.mod_lt. discriminate.
Qed.

(** Reading back the [k] low digits of [n] continues the accumulator
    with exactly those digits. *)
Lemma read_low_digits (k : nat) (n acc : N) (c : nat) (rest : string) :
  read_digits (low_digits k n EmptyString ++ rest) acc c
  = read_digits rest (acc * 10 ^ N.of_nat k + n mod 10 ^ N.of_nat k)%N
      (c + k)%nat.
Proof.
  revert n acc c rest.
  induction k as [|k IH]; intros n acc c rest.
  - cbn [low_digits append]. rewrite N.mod_1_r.
    f_equal; [cbn; lia | lia].
  - cbn [low_digits]. rewrite low_digits_app, string_app_assoc, IH.
    cbn [append read_digits].
    rewrite digit_of_digit_char by (apply N.mod_lt; discriminate).
    f_equal; [|lia].
    rewrite Nat2N.inj_succ, N.pow_succ_r'.
    rewrite (N.Div0.mod_mul_r n 10 (10 ^ N.of_nat k)). lia.
Qed.

Lemma count_digits_covers (fuel : nat) (n : N) :
  (n < 2 ^ N.of_nat fuel)%N ->
  (n < 10 ^ N.of_nat (count_digits fuel n))%N.
Proof.
  revert n. induction fuel as [|fuel IH]; intros n Hn.
  - cbn in *. lia.
  - cbn [count_digits]. destruct (N.ltb_spec n 10) as [Hlt | Hge].
    + cbn. lia.
    + rewrite Nat2N.inj_succ, N.pow_succ_r' in *.
      assert (Hq : (n / 10 < 2 ^ N.of_nat fuel)%N).
      { apply N.Div0.div_lt_upper_bound. lia. }
      specialize (IH _ Hq).
      pose proof (N.Div0.div_mod n 10) as E.
      pose proof (N.mod_lt n 10 ltac:(discriminate)). lia.
Qed.

Lemma count_digits_pos (fuel : nat) (n : N) :
  exists k, count_digits fuel n = S k.
Proof.
  destruct fuel; cbn; [now exists O|].
  destruct (n <? 10)%N; eexists; reflexivity.
Qed.

(** [string_of_N] writes the decimal digits of its argument. *)
Lemma read_string_of_N (n : N) (rest : string) :
  exists k,
    read_digits (string_of_N n ++ rest) 0 0
    = read_digits rest n (S k).
Proof.
  unfold string_of_N.
  set (fuel := N.to_nat (N.size n)).
  destruct (count_digits_pos fuel n) as [k Hk].
  exists k. rewrite read_low_digits, Hk. f_equal.
  rewrite <- Hk. rewrite N.mod_small; [lia|].
  apply count_digits_covers. unfold fuel. rewrite N2Nat.id.
  apply N.size_gt.
Qed.

Lemma string_app_nil_r (s : string) : (s ++ EmptyString)%string = s.
Proof. induction s as [|c s IH]; cbn; [reflexivity | now rewrite IH]. Qed.

(** Reading a formatted positive double back as a decimal literal gives
    the rounded scaled integer over [10 ^ p]: the text carries exactly
    the digits of that integer, [p] of them after the point. *)
Lemma parse_format_f (p : nat) (m : positive) (e : Z) :
  parse_float_literal (format_f (S p) (S754_finite false m e))
  = Some (round_scaled m e (S p), S p).
Proof.
  unfold format_f, parse_float_literal, fraction_string.
  cbn [sign_string append].
  set (n := round_scaled m e (S p)).
  set (unit := (10 ^ N.of_nat (S p))%N).
  destruct (read_string_of_N (n / unit)
              (String "." (low_digits (S p) (n mod unit) EmptyString)))
    as [k ->].
  cbn [read_digits].
  replace (digit_of_ascii ".") with (@None N) by reflexivity.
  rewrite <- (string_app_nil_r (low_digits (S p) _ _)).
  rewrite read_low_digits. cbn [read_digits Nat.add]. fold unit.
  do 2 f_equal.
  rewrite N.Div0.mod_mod, N.mul_comm.
  symmetry. apply N.Div0.div_mod.
Qed.


Lemma string_of_N_digits (n : N) :
  exists c ds,
    string_of_N n = String c ds
    /\ is_digit c = true /\ all_digits ds = true.
Proof.
  unfold string_of_N.
  destruct (count_digits_pos (N.to_nat (N.size n)) n) as [k ->].
  pose proof (low_digits_all_digits (S k) n) as Hall.
  pose proof (low_digits_length (S k) n) as Hlen.
  destruct (low_digits (S k) n EmptyString) as [|c ds].
  - discriminate Hlen.
  - cbn in Hall. apply andb_prop in Hall. destruct Hall as [Hc Hds].
    now exists c, ds.
Qed.


Lemma round_scaled_neg (m k : positive) (p : nat) :
  let num := (Npos m * 10 ^ N.of_nat p)%N in
  let den := (2 ^ Npos k)%N in
  let n := round_scaled m (Zneg k) p in
  (2 * (n * den) <= 2 * num + den)%N /\ (2 * num <= 2 * (n * den) + den)%N.
Proof.
  intros num den n. unfold n, round_scaled. fold num. fold den.
  assert (Hden : (0 < den)%N).
  { unfold den. apply N.neq_0_lt_0, N.pow_nonzero. discriminate. }
  pose proof (N.Div0.div_mod num den) as Hdm.
  pose proof (N.mod_lt num den ltac:(lia)) as Hr.
  set (q := (num / den)%N) in *. set (r := (num mod den)%N) in *.
  clearbody q r num den.
  destruct (N.compare_spec (2 * r) den) as [E | L | G].
  - destruct (N.even q); nia.
  - nia.
  - nia.
Qed.

Lemma Qabs_half_from_Z (n num den : Z) :
  0 < den ->
  2 * (n * den) <= 2 * num + den -> 2 * num <= 2 * (n * den) + den ->
  (Qabs (inject_Z n - inject_Z num / inject_Z den) <= 1 # 2)%Q.
Proof.
  intros Hden H1 H2.
  assert (HD : (inject_Z 0 < inject_Z den)%Q)
    by (rewrite <- Zlt_Qlt; exact Hden).
  change (inject_Z 0) with 0%Q in HD.
  rewrite Zle_Qle in H1, H2.
  rewrite !inject_Z_plus, !inject_Z_mult in H1, H2.
  set (D := inject_Z den) in *. set (A := inject_Z n) in *.
  set (B := inject_Z num) in *.
  assert (E : (A - B / D == (A * D - B) / D)%Q) by (field; lra).
  rewrite E. apply Qabs_Qle_condition. split.
  - apply Qle_shift_div_l; [exact HD|]. change (inject_Z 2) with 2%Q in *.
    lra.
  - apply Qle_shift_div_r; [exact HD|]. change (inject_Z 2) with 2%Q in *.
    lra.
Qed.

(** The integer that is printed is a nearest integer to the exact value
    scaled by [10 ^ p]: fixed-point formatting is correctly rounded. *)
Lemma round_scaled_nearest (m : positive) (e : Z) (p : nat) :
  (Qabs (inject_Z (Z.of_N (round_scaled m e p))
         - to_Q (S754_finite false m e) * inject_Z (10 ^ Z.of_nat p))
   <= 1 # 2)%Q.
Proof.
  assert (Hten : Z.of_N (10 ^ N.of_nat p) = 10 ^ Z.of_nat p).
  { rewrite N2Z.inj_pow, nat_N_Z. reflexivity. }
  destruct e as [|k|k].
  - (* exponent zero: the scaled value is an integer *)
    cbn [round_scaled to_Q signed]. unfold pow2. cbn [Z.to_N Qpower].
    rewrite N.pow_0_r, N.mul_1_r, N2Z.inj_mul, Hten, inject_Z_mult.
    cbn [Z.of_N].
    setoid_replace (inject_Z (Zpos m) * inject_Z (10 ^ Z.of_nat p)
                    - inject_Z (Zpos m) * 1 * inject_Z (10 ^ Z.of_nat p))%Q
      with 0%Q by ring.
    discriminate.
  - (* positive exponent: likewise *)
    cbn [round_scaled to_Q signed]. rewrite pow2_inject by lia.
    rewrite !N2Z.inj_mul, Hten, N2Z.inj_pow, !inject_Z_mult.
    cbn [Z.of_N Z.to_N].
    setoid_replace
      (inject_Z (Zpos m) * inject_Z (10 ^ Z.of_nat p)
         * inject_Z (2 ^ Zpos k)
       - inject_Z (Zpos m) * inject_Z (2 ^ Zpos k)
         * inject_Z (10 ^ Z.of_nat p))%Q
      with 0%Q by ring.
    discriminate.
  - (* negative exponent: rounding of a quotient *)
    pose proof (round_scaled_neg m k p) as [H1 H2]. cbv zeta in H1, H2.
    set (n := round_scaled m (Zneg k) p) in *.
    apply N2Z.inj_le in H1, H2.
    rewrite !N2Z.inj_add, !N2Z.inj_mul, Hten, N2Z.inj_pow in H1, H2.
    cbn [Z.of_N] in H1, H2.
    assert (Hden : 0 < 2 ^ Zpos k) by (apply Z.pow_pos_nonneg; lia).
    pose proof (Qabs_half_from_Z _ _ _ Hden H1 H2) as H.
    cbn [to_Q signed].
    assert (Ep : (pow2 (Zneg k) == / inject_Z (2 ^ Zpos k))%Q).
    { change (Zneg k) with (- Zpos k). unfold pow2.
      rewrite Qpower_opp. apply Qinv_comp.
      symmetry. apply Zpower_Qpower. lia. }
    rewrite Ep. rewrite inject_Z_mult in H.
    setoid_replace (inject_Z (Zpos m) * / inject_Z (2 ^ Zpos k)
                    * inject_Z (10 ^ Z.of_nat p))%Q
      with (inject_Z (Zpos m) * inject_Z (10 ^ Z.of_nat p)
            / inject_Z (2 ^ Zpos k))%Q.
    + exact H.
    + unfold Qdiv. ring.
Qed.

End FormatFacts.

(** ** The script verified *)

Import Double Py Constants.

(** Runs the script by computation and leaves what is claimed of its
    final names and console. *)
Ltac run_script :=
  unfold script_yields; do 2 eexists;
  split; [vm_compute; reflexivity | cbv beta].

(** Decides a closed comparison of rationals or doubles. *)
Ltac decide_closed :=
  vm_compute; first [reflexivity | discriminate | intro; discriminate].

(** Replaces a closed term by its value. *)
Ltac eval_double x :=
  let v := eval vm_compute in x in
  replace x with v by (vm_compute; reflexivity).

Ltac prove_nearest :=
  match goal with
  | |- nearest_double _ ?x =>
      eval_double x; apply half_ulp_nearest; decide_closed
  | |- nearest_double_sqrt _ ?x =>
      eval_double x; apply half_ulp_nearest_sqrt; decide_closed
  end.

(** C1 as stated fails: the text written is not the block of section 6,
    which differs in the lines of [ecc2], [b] and [radius]. *)
Lemma section6_listing_not_produced :
  ~ script_yields (fun _ out => stdout_text out = unlines Spec.listing).
Proof.
  intros (g & out & Hrun & Hout).
  vm_compute in Hrun. injection Hrun as _ <-.
  vm_compute in Hout. discriminate Hout.
Qed.

(** C1, amended: the run ends normally with exit status 0 and standard
    output holds exactly these nine newline-terminated lines, in this
    order and nothing else. *)
Theorem run_output_exact :
  exit_code run = 0 /\
  script_yields (fun _ out =>
    stdout_text out =
      unlines ["pi = 3.1415926535897931";
               "2pi = 6.2831853071795862";
               "pi/2 = 1.5707963267948966";
               "pi/4 = 0.7853981633974483";
               "f = 0.0033528106647475";
               "ecc2 = 0.0066943799901413";
               "ecc = 0.0818191908426215";
               "b = 6356752.3142451792955399";
               "radius = 6371008.7714150594547391"]%string).
Proof.
  split; [vm_compute; reflexivity|].
  run_script. vm_compute. reflexivity.
Qed.

(** C2: the values the script prints are, in order, the closed forms of
    the specification evaluated in binary64, and every step is correctly
    rounded: [pi] and [inv_f] are the doubles nearest to their decimal
    literals, [a] is its literal exactly, and [f], [ecc2], [ecc], [b] and
    [radius] are the doubles nearest to the exact quotient, difference,
    square root, product and quotient of their double operands. *)
Theorem printed_values_closed_forms :
  script_yields (fun g out =>
    printed_values out = Spec.printed /\
    g = Globals Spec.pi Spec.a Spec.inv_f Spec.f Spec.ecc2 Spec.ecc
          Spec.b Spec.radius /\
    nearest_double
      (3141592653589793238462643383279502884197 # 10 ^ 39) (pi g) /\
    (to_Q (a g) == 6378137)%Q /\
    nearest_double (298257223563 # 10 ^ 9) (inv_f g) /\
    nearest_double (1 / to_Q (inv_f g)) (f g) /\
    (to_Q (mul (of_int 2) (f g)) == 2 * to_Q (f g))%Q /\
    nearest_double (to_Q (f g) * to_Q (f g)) (mul (f g) (f g)) /\
    nearest_double (2 * to_Q (f g) - to_Q (mul (f g) (f g))) (ecc2 g) /\
    nearest_double_sqrt (to_Q (ecc2 g)) (ecc g) /\
    nearest_double (1 - to_Q (f g)) (sub one (f g)) /\
    nearest_double (to_Q (a g) * to_Q (sub one (f g))) (b g) /\
    (to_Q (mul (of_int 2) (a g)) == 2 * to_Q (a g))%Q /\
    nearest_double (2 * to_Q (a g) + to_Q (b g))
      (add (mul (of_int 2) (a g)) (b g)) /\
    nearest_double (to_Q (add (mul (of_int 2) (a g)) (b g)) / 3)
      (radius g)).
Proof.
  run_script.
  split; [vm_compute; reflexivity|].
  split; [vm_compute; reflexivity|].
  cbv beta iota delta [pi a inv_f f ecc2 ecc b radius].
  split; [prove_nearest|].
  split; [decide_closed|].
  split; [prove_nearest|].
  split; [prove_nearest|].
  split; [decide_closed|].
  split; [prove_nearest|].
  split; [prove_nearest|].
  split; [prove_nearest|].
  split; [prove_nearest|].
  split; [prove_nearest|].
  split; [decide_closed|].
  split; prove_nearest.
Qed.

(** C3 as stated fails: the script does not write eleven lines. *)
Lemma output_not_eleven_lines :
  ~ script_yields (fun _ out =>
      List.length (split_lines (stdout_text out))
      = Spec.announced_line_count).
Proof.
  intros (g & out & Hrun & Hout).
  vm_compute in Hrun. injection Hrun as _ <-.
  vm_compute in Hout. discriminate Hout.
Qed.

(** C3, amended: the script writes nine lines, one per [print] call,
    labelled [pi], [2pi], [pi/2], [pi/4], [f], [ecc2], [ecc], [b] and
    [radius] in this order ([a] and [inv_f] are not printed); each line
    is its label, [" = "], and a value in fixed-point notation with
    exactly sixteen digits after the point. *)
Theorem output_nine_labelled_lines :
  script_yields (fun _ out =>
    List.length out = 9%nat /\
    List.length (split_lines (stdout_text out)) = 9%nat /\
    Forall2
      (fun name line =>
         exists v, line = (name ++ " = " ++ v)%string
                   /\ is_fixed_point 16 v = true)
      Spec.names (split_lines (stdout_text out)) /\
    Forall2
      (fun name fs =>
         exists x, fs = [Text (name ++ " = "); Field x 16])
      Spec.names out).
Proof.
  run_script.
  split; [reflexivity|]. split; [vm_compute; reflexivity|].
  split.
  - match goal with
    | |- Forall2 _ _ ?ls => eval_double ls
    end.
    unfold Spec.names.
    repeat (apply Forall2_cons;
            [eexists; split; [reflexivity | vm_compute; reflexivity]|]).
    apply Forall2_nil.
  - unfold Spec.names.
    repeat (apply Forall2_cons; [eexists; reflexivity|]).
    apply Forall2_nil.
Qed.

(** C4: the values printed under the labels [2pi], [pi/2] and [pi/4] are
    the double products of [pi] by 2, 0.5 and 0.25, and each product is
    exact: it keeps the significand of [pi] and only moves the exponent,
    so its value is the exact multiple of the value of [pi]. *)
Theorem pi_multiples_exact :
  script_yields (fun g out =>
    exists m e two_pi half_pi quarter_pi,
      pi g = S754_finite false m e /\
      firstn 4 out =
        [[Text "pi = "; Field (pi g) 16];
         [Text "2pi = "; Field two_pi 16];
         [Text "pi/2 = "; Field half_pi 16];
         [Text "pi/4 = "; Field quarter_pi 16]] /\
      two_pi = mul (of_int 2) (pi g) /\
      half_pi = mul (of_ratio 1 2) (pi g) /\
      quarter_pi = mul (of_ratio 1 4) (pi g) /\
      two_pi = S754_finite false m (e + 1) /\
      half_pi = S754_finite false m (e - 1) /\
      quarter_pi = S754_finite false m (e - 2) /\
      (to_Q two_pi == 2 * to_Q (pi g))%Q /\
      (to_Q half_pi == (1 # 2) * to_Q (pi g))%Q /\
      (to_Q quarter_pi == (1 # 4) * to_Q (pi g))%Q).
Proof.
  run_script. do 5 eexists.
  split; [reflexivity|]. split; [reflexivity|].
  repeat split; decide_closed.
Qed.

(** C5: squaring the computed eccentricity, in double arithmetic or
    exactly, lands within one unit in the last place of [ecc2]. *)
Theorem ecc_roundtrip_one_ulp :
  script_yields (fun g _ =>
    (Qabs (to_Q (float_mul (ecc g) (ecc g)) - to_Q (ecc2 g))
     <= ulp (ecc2 g))%Q /\
    (Qabs (to_Q (ecc g) * to_Q (ecc g) - to_Q (ecc2 g))
     <= ulp (ecc2 g))%Q).
Proof. run_script. split; decide_closed. Qed.

(** C6: the semi-minor axis is strictly below the mean radius, which is
    strictly below the semi-major axis, both under the comparison of
    doubles and for the exact values. *)
Theorem axes_strictly_ordered :
  script_yields (fun g _ =>
    ltb (b g) (radius g) = true /\ ltb (radius g) (a g) = true /\
    ltb (b g) (a g) = true /\
    (to_Q (b g) < to_Q (radius g))%Q /\ (to_Q (radius g) < to_Q (a g))%Q).
Proof. run_script. repeat split; decide_closed. Qed.

(** C7: the script raises nothing.  The run ends normally with exit
    status 0; the divisor [inv_f] of [1.0 / inv_f] and the divisor [3]
    are non-zero, the argument of [math.sqrt] is not negative, the power
    does not overflow, and every literal is read. *)
Theorem script_never_raises :
  (forall e, run <> Raise e) /\
  exit_code run = 0 /\
  script_yields (fun g _ =>
    is_zero (inv_f g) = false /\
    (0 < to_Q (inv_f g))%Q /\
    float_truediv one (inv_f g) = Ok (f g) /\
    is_zero (of_int 3) = false /\
    float_truediv_int
      (float_add (int_mul_float 2 (a g)) (b g)) 3 = Ok (radius g) /\
    ltb (ecc2 g) zero = false /\ (0 <= to_Q (ecc2 g))%Q /\
    math_sqrt (ecc2 g) = Ok (ecc g) /\
    (exists sq, float_pow (f g) 2 = Ok sq)).
Proof.
  split; [intros e; vm_compute; discriminate|].
  split; [vm_compute; reflexivity|].
  run_script.
  repeat split; try decide_closed.
  eexists. vm_compute. reflexivity.
Qed.

(** C8 as stated fails: dividing the double difference [a - b] by [a]
    does not give back the double [f]. *)
Lemma flattening_not_recovered :
  ~ script_yields (fun g _ =>
      float_truediv (float_sub (a g) (b g)) (a g) = Ok (f g)).
Proof.
  intros (g & out & Hrun & H).
  vm_compute in Hrun. injection Hrun as <- _.
  vm_compute in H. discriminate H.
Qed.

(** C8, amended: the relation holds up to rounding only.  The double
    quotient [(a - b) / a] lies 74 units in the last place above [f],
    the exact quotient of the doubles lies between 73 and 74 such units
    above [f], and both agree with [f] to a relative error below
    [2 ^ -46]. *)
Theorem flattening_recovered_approximately :
  script_yields (fun g _ =>
    exists q,
      float_truediv (float_sub (a g) (b g)) (a g) = Ok q /\
      (to_Q q - to_Q (f g) == 74 * ulp (f g))%Q /\
      (Qabs (to_Q q - to_Q (f g)) <= pow2 (-46) * to_Q (f g))%Q /\
      let exact := ((to_Q (a g) - to_Q (b g)) / to_Q (a g))%Q in
      (73 * ulp (f g) < exact - to_Q (f g))%Q /\
      (exact - to_Q (f g) < 74 * ulp (f g))%Q /\
      (Qabs (exact - to_Q (f g)) <= pow2 (-46) * to_Q (f g))%Q).
Proof.
  run_script. eexists. split; [vm_compute; reflexivity|].
  cbv zeta. repeat split; decide_closed.
Qed.

(** C9: for the flattening the script computes, the power [f ** 2] is
    bit for bit the double product [f * f], so [ecc2] is also
    [2 * f - f * f].  The exact square lies within a third of an ulp of
    that product, hence every double within two thirds of an ulp of the
    exact square is that product. *)
Theorem pow_two_is_square :
  script_yields (fun g _ =>
    float_pow (f g) 2 = Ok (float_mul (f g) (f g)) /\
    ecc2 g = float_sub (int_mul_float 2 (f g)) (float_mul (f g) (f g)) /\
    ecc2 g = Spec.ecc2 /\
    only_double_within (2 # 3) (to_Q (f g) * to_Q (f g))
      (float_mul (f g) (f g))).
Proof.
  run_script.
  split; [decide_closed|]. split; [decide_closed|].
  split; [decide_closed|].
  match goal with
  | |- only_double_within _ _ ?x => eval_double x
  end.
  apply within_gap_unique with (t := (1 # 3)%Q); decide_closed.
Qed.

(** C10: every value the script derives is a finite double above zero,
    the flattening and both eccentricities lie strictly between 0 and 1,
    and so the argument of the square root is strictly positive. *)
Theorem constants_positive_finite :
  script_yields (fun g out =>
    forallb positive_finite (printed_values out) = true /\
    forallb positive_finite
      [pi g; a g; inv_f g; f g; ecc2 g; ecc g; b g; radius g] = true /\
    forallb in_open_unit [f g; ecc2 g; ecc g] = true /\
    (0 < to_Q (f g))%Q /\ (to_Q (f g) < 1)%Q /\
    (0 < to_Q (ecc2 g))%Q /\ (to_Q (ecc2 g) < 1)%Q /\
    (0 < to_Q (ecc g))%Q /\ (to_Q (ecc g) < 1)%Q /\
    (0 < to_Q (b g))%Q /\ (0 < to_Q (radius g))%Q).
Proof. run_script. repeat split; decide_closed. Qed.

(** ** Further properties of the operations the script uses *)

Section OutputLines.

Import Double Py.

Lemma no_newline_app (s1 s2 : string) :
  no_newline (s1 ++ s2) = no_newline s1 && no_newline s2.
Proof.
  induction s1 as [|c s1 IH]; cbn; [reflexivity|].
  now rewrite IH, andb_assoc.
Qed.

Lemma digits_no_newline (s : string) :
  all_digits s = true -> no_newline s = true.
Proof.
  induction s as [|c s IH]; cbn; [reflexivity|].
  intros H. apply andb_prop in H. destruct H as [Hc Hs].
  rewrite (IH Hs), andb_true_r.
  destruct (Ascii.eqb c _) eqn:E; [|reflexivity].
  apply Ascii.eqb_eq in E. subst c. discriminate Hc.
Qed.

Lemma fraction_string_no_newline (p : nat) (n : N) :
  no_newline (fraction_string p n) = true.
Proof.
  destruct p as [|p]; [reflexivity|].
  unfold fraction_string. cbn [no_newline].
  rewrite digits_no_newline by apply low_digits_all_digits. reflexivity.
Qed.

Lemma string_of_N_no_newline (n : N) : no_newline (string_of_N n) = true.
Proof.
  destruct (string_of_N_digits n) as (c & ds & -> & Hc & Hds).
  apply digits_no_newline. cbn. now rewrite Hc, Hds.
Qed.

(** A formatted float never breaks the line. *)
Lemma format_f_no_newline (p : nat) (x : float) :
  no_newline (format_f p x) = true.
Proof.
  assert (Hs : forall s, no_newline (sign_string s) = true)
    by (intros []; reflexivity).
  destruct x as [s | s | | s m e]; unfold format_f;
    rewrite ?no_newline_app, ?Hs, ?fraction_string_no_newline,
      ?string_of_N_no_newline; reflexivity.
Qed.

Lemma render_no_newline (fs : fstring) :
  one_line fs = true -> no_newline (render fs) = true.
Proof.
  induction fs as [|q fs IH]; cbn; [reflexivity|].
  intros H. apply andb_prop in H. destruct H as [Hq Hfs].
  rewrite no_newline_app, (IH Hfs), andb_true_r.
  destruct q as [s | x p]; cbn; [exact Hq | apply format_f_no_newline].
Qed.

Lemma split_lines_aux_line (s rest cur : string) :
  no_newline s = true ->
  split_lines_aux (s ++ newline ++ rest) cur
  = (cur ++ s)%string :: split_lines_aux rest EmptyString.
Proof.
  revert cur. induction s as [|c s IH]; intros cur H.
  - cbn. now rewrite string_app_nil_r.
  - cbn [no_newline] in H. apply andb_prop in H. destruct H as [Hc Hs].
    cbn [append split_lines_aux].
    apply negb_true_iff in Hc. rewrite Hc.
    rewrite (IH _ Hs), string_app_assoc. reflexivity.
Qed.

Lemma split_lines_stdout_text (out : console) :
  forallb one_line out = true ->
  split_lines (stdout_text out) = map render out.
Proof.
  unfold split_lines.
  induction out as [|fs out IH]; cbn [stdout_text map forallb];
    [reflexivity|].
  intros H. apply andb_prop in H. destruct H as [Hfs Hout].
  rewrite split_lines_aux_line by now apply render_no_newline.
  now rewrite (IH Hout).
Qed.

End OutputLines.

(** X1: every [print] call adds exactly one line to standard output,
    the rendering of its f-string, whatever floats its fields hold,
    provided the literal text printed so far and now has no newline. *)
Theorem print_adds_one_line (out : Py.console) (fs : Py.fstring) :
  forallb Py.one_line out = true -> Py.one_line fs = true ->
  exists out',
    Py.print fs out = Py.Ok (tt, out') /\
    Py.split_lines (Py.stdout_text out')
    = Py.split_lines (Py.stdout_text out) ++ [Py.render fs].
Proof.
  intros Hout Hfs. exists (out ++ [fs]). split; [reflexivity|].
  rewrite !split_lines_stdout_text.
  - now rewrite map_app.
  - exact Hout.
  - rewrite forallb_app, Hout. cbn. now rewrite Hfs.
Qed.

Lemma print_adds_one_line_witness :
  exists out',
    Py.print [Py.Text "f = "; Py.Field Double.one 16]
      [[Py.Text "pi = "; Py.Field Double.one 16]]
    = Py.Ok (tt, out') /\
    Py.split_lines (Py.stdout_text out')
    = Py.split_lines
        (Py.stdout_text [[Py.Text "pi = "; Py.Field Double.one 16]])
      ++ [Py.render [Py.Text "f = "; Py.Field Double.one 16]].
Proof.
  apply print_adds_one_line; reflexivity.
Defined.



(** X3: fixed-point formatting is correctly rounded.  Read as a decimal,
    the text written for a positive double under [0.<p>f] is a whole
    number of units [10 ^ -p], and it lies within half such a unit of
    the exact value of the double. *)
Theorem format_f_correctly_rounded (p : nat) (m : positive) (e : Z) :
  exists n,
    Py.parse_float_literal (Py.format_f (S p) (S754_finite false m e))
    = Some (n, S p) /\
    (Qabs (inject_Z (Z.of_N n) / inject_Z (10 ^ Z.of_nat (S p))
           - Double.to_Q (S754_finite false m e))
     <= (1 # 2) / inject_Z (10 ^ Z.of_nat (S p)))%Q.
Proof.
  exists (Py.round_scaled m e (S p)). split; [apply parse_format_f|].
  pose proof (round_scaled_nearest m e (S p)) as H.
  set (x := Double.to_Q (S754_finite false m e)) in *.
  set (n := inject_Z (Z.of_N (Py.round_scaled m e (S p)))) in *.
  assert (HT : (inject_Z 0 < inject_Z (10 ^ Z.of_nat (S p)))%Q).
  { rewrite <- Zlt_Qlt. apply Z.pow_pos_nonneg; lia. }
  change (inject_Z 0) with 0%Q in HT.
  set (T := inject_Z (10 ^ Z.of_nat (S p))) in *.
  clearbody x n T.
  apply Qabs_Qle_condition in H. destruct H as [Hlo Hhi].
  assert (E : (n / T - x == (n - x * T) / T)%Q) by (field; lra).
  rewrite E. apply Qabs_Qle_condition. split.
  - setoid_replace (- ((1 # 2) / T))%Q with ((- (1 # 2)) / T)%Q
      by (field; lra).
    unfold Qdiv. apply Qmult_le_compat_r; [exact Hlo|].
    apply Qlt_le_weak, Qinv_lt_0_compat, HT.
  - unfold Qdiv. apply Qmult_le_compat_r; [exact Hhi|].
    apply Qlt_le_weak, Qinv_lt_0_compat, HT.
Qed.

Section RoundingSign.

Import Double Py.

Lemma shr_1_nonneg (mrs : shr_record) :
  0 <= shr_m mrs -> 0 <= shr_m (shr_1 mrs).
Proof.
  destruct mrs as [m r s]. cbn [shr_m]. intros Hm.
  destruct m as [|[q|q|]|q]; cbn; lia.
Qed.

Lemma iter_shr_1_nonneg (p : positive) (mrs : shr_record) :
  0 <= shr_m mrs -> 0 <= shr_m (iter_pos shr_1 p mrs).
Proof.
  revert mrs. induction p as [p IH | p IH |]; intros mrs Hm;
    cbn [iter_pos].
  - apply IH, IH, shr_1_nonneg, Hm.
  - apply IH, IH, Hm.
  - apply shr_1_nonneg, Hm.
Qed.

Lemma shr_fexp_nonneg (m e : Z) (l : location) :
  0 <= m -> 0 <= shr_m (fst (shr_fexp prec emax m e l)).
Proof.
  intros Hm. unfold shr_fexp, shr.
  assert (H0 : 0 <= shr_m (shr_record_of_loc m l))
    by (destruct l as [|[]]; exact Hm).
  destruct (fexp prec emax (Zdigits2 m + e) - e) as [|p|p];
    cbn [fst]; try exact H0.
  now apply iter_shr_1_nonneg.
Qed.

Lemma round_nearest_even_nonneg (m : Z) (l : location) :
  0 <= m -> 0 <= round_nearest_even m l.
Proof.
  intros Hm. destruct l as [|[]]; cbn; try lia.
  destruct (Z.even m); lia.
Qed.

(** Rounding a non-negative significand gives a zero, a finite value or
    an infinity of the requested sign, never a NaN. *)
Lemma binary_round_aux_sign (sx : bool) (mx ex : Z) (lx : location) :
  0 <= mx ->
  match binary_round_aux prec emax sx mx ex lx with
  | S754_nan => False
  | S754_zero s | S754_infinity s | S754_finite s _ _ => s = sx
  end.
Proof.
  intros Hm. unfold binary_round_aux.
  pose proof (shr_fexp_nonneg mx ex lx Hm) as H1.
  destruct (shr_fexp prec emax mx ex lx) as [mrs' e'].
  cbn [fst] in H1.
  pose proof (shr_fexp_nonneg
                (round_nearest_even (shr_m mrs') (loc_of_shr_record mrs'))
                e' loc_Exact
                (round_nearest_even_nonneg _ _ H1)) as H2.
  destruct (shr_fexp prec emax _ e' loc_Exact) as [mrs'' e''].
  cbn [fst] in H2.
  destruct (shr_m mrs'') as [|q|q]; [reflexivity | | lia].
  destruct (e'' <=? emax - prec); reflexivity.
Qed.

Lemma sqrt_core_nonneg (m : positive) (e : Z) :
  0 <= fst (fst (SFsqrt_core_binary prec emax (Zpos m) e)).
Proof.
  unfold SFsqrt_core_binary.
  match goal with
  | |- context [Z.sqrtrem ?n] =>
      pose proof (Z.sqrtrem_sqrt n) as Hs;
      pose proof (Z.sqrt_nonneg n) as Hn;
      destruct (Z.sqrtrem n) as [q r]
  end.
  cbn [fst] in *. subst q. exact Hn.
Qed.

End RoundingSign.

(** X4: [math.sqrt] raises [ValueError] exactly on the arguments that
    compare below zero (negative finite values and [-inf]); on every
    other argument it returns the rounded root, which never compares
    below zero and is a NaN only when the argument is. *)
Theorem math_sqrt_domain (x : Double.float) :
  Py.math_sqrt x
  = (if Double.ltb x Double.zero then Py.Raise Py.ValueError
     else Py.Ok (Double.sqrt x))
  /\ Double.ltb (Double.sqrt x) Double.zero = false
  /\ Py.is_nan (Double.sqrt x)
     = Py.is_nan x || Double.ltb x Double.zero.
Proof.
  destruct x as [[] | [] | | [] m e]; try (repeat split; reflexivity).
  unfold Py.math_sqrt, Double.sqrt, SFsqrt.
  pose proof (sqrt_core_nonneg m e) as Hq.
  destruct (SFsqrt_core_binary Double.prec Double.emax (Zpos m) e)
    as [[q e'] l].
  cbn [fst] in Hq.
  pose proof (binary_round_aux_sign false q e' l Hq) as Hr.
  destruct (binary_round_aux Double.prec Double.emax false q e' l)
    as [s | s | | s m' e'']; try contradiction; subst s;
    repeat split; reflexivity.
Qed.

Section SquareAsPower.

Import Double Py.



End SquareAsPower.



Section PowerOfTwoScaling.

Import Double Py.

Lemma normal_digits (s : bool) (m : positive) (e : Z) :
  valid (S754_finite s m e) = true -> 2 ^ 52 <= Zpos m ->
  digits2_pos m = 53%positive.
Proof.
  intros V Hm.
  pose proof (valid_finite_bounds _ _ _ V) as (_ & Hhi & _).
  pose proof (digits2_pos_bounds m) as [Hlo Hup].
  set (d := digits2_pos m) in *.
  assert (Zpos d = 53); [|congruence].
  destruct (Z_lt_le_dec (Zpos d) 53) as [A | A].
  - assert (2 ^ Zpos d <= 2 ^ 52) by (apply Z.pow_le_mono_r; lia). lia.
  - destruct (Z_lt_le_dec 53 (Zpos d)) as [B | B]; [|lia].
    assert (2 ^ 53 <= 2 ^ (Zpos d - 1)) by (apply Z.pow_le_mono_r; lia).
    lia.
Qed.

Lemma mul_two_pow (j : Z) (s : bool) (m : positive) (e : Z) :
  valid (S754_finite s m e) = true -> 2 ^ 52 <= Zpos m ->
  -1074 <= e + j <= 971 ->
  mul (two_pow j) (S754_finite s m e) = S754_finite s m (e + j).
Proof.
  intros V Hm Hj.
  pose proof (normal_digits s m e V Hm) as Hd.
  unfold mul, two_pow, SFmul. cbn [xorb].
  unfold binary_round_aux, shr_fexp.
  cbn [Pos.mul Zdigits2 digits2_pos]. rewrite Hd. cbn [Pos.succ].
  replace (fexp prec emax (105 + (j - 52 + e)) - (j - 52 + e)) with 52
    by (unfold fexp, emin, prec, emax; lia).
  cbn [shr shr_record_of_loc iter_pos shr_1 orb shr_m loc_of_shr_record
       round_nearest_even Zdigits2].
  rewrite Hd.
  replace (fexp prec emax (53 + (j - 52 + e + 52)) - (j - 52 + e + 52))
    with 0 by (unfold fexp, emin, prec, emax; lia).
  cbn [shr shr_m].
  replace (j - 52 + e + 52 <=? emax - prec) with true
    by (symmetry; apply Z.leb_le; unfold emax, prec; lia).
  f_equal. lia.
Qed.

Lemma to_Q_shift_exponent (s : bool) (m : positive) (e j : Z) :
  (to_Q (S754_finite s m (e + j)) == pow2 j * to_Q (S754_finite s m e))%Q.
Proof. cbn [to_Q]. rewrite pow2_add. ring. Qed.

End PowerOfTwoScaling.

(** X6: the three scalings the script applies to [pi] are exact for
    every normal double whose quarter and double stay in the normal
    range: multiplying by the literals [2.0], [0.5] and [0.25] keeps the
    significand and moves the exponent by 1, -1 and -2, so the products
    are the exact multiples. *)
Theorem literal_scalings_exact (s : bool) (m : positive) (e : Z) :
  Double.valid (S754_finite s m e) = true ->
  2 ^ 52 <= Zpos m -> -1072 <= e <= 970 ->
  exists c2 c05 c025,
    Py.float_literal "2.0" = Py.Ok c2 /\
    Py.float_literal "0.5" = Py.Ok c05 /\
    Py.float_literal "0.25" = Py.Ok c025 /\
    Py.float_mul c2 (S754_finite s m e) = S754_finite s m (e + 1) /\
    Py.float_mul c05 (S754_finite s m e) = S754_finite s m (e - 1) /\
    Py.float_mul c025 (S754_finite s m e) = S754_finite s m (e - 2) /\
    (Double.to_Q (Py.float_mul c2 (S754_finite s m e))
     == 2 * Double.to_Q (S754_finite s m e))%Q /\
    (Double.to_Q (Py.float_mul c05 (S754_finite s m e))
     == (1 # 2) * Double.to_Q (S754_finite s m e))%Q /\
    (Double.to_Q (Py.float_mul c025 (S754_finite s m e))
     == (1 # 4) * Double.to_Q (S754_finite s m e))%Q.
Proof.
  intros V Hm He.
  exists (Double.two_pow 1), (Double.two_pow (-1)), (Double.two_pow (-2)).
  assert (E1 : Py.float_mul (Double.two_pow 1) (S754_finite s m e)
               = S754_finite s m (e + 1))
    by (apply mul_two_pow; [exact V | exact Hm | lia]).
  assert (E2 : Py.float_mul (Double.two_pow (-1)) (S754_finite s m e)
               = S754_finite s m (e + -1))
    by (apply mul_two_pow; [exact V | exact Hm | lia]).
  assert (E3 : Py.float_mul (Double.two_pow (-2)) (S754_finite s m e)
               = S754_finite s m (e + -2))
    by (apply mul_two_pow; [exact V | exact Hm | lia]).
  split; [vm_compute; reflexivity|].
  split; [vm_compute; reflexivity|].
  split; [vm_compute; reflexivity|].
  split; [exact E1|]. split; [exact E2|]. split; [exact E3|].
  rewrite E1, E2, E3, !to_Q_shift_exponent.
  repeat split; apply Qmult_comp; reflexivity.
Qed.

Lemma literal_scalings_exact_witness :
  exists c2 c05 c025,
    Py.float_literal "2.0" = Py.Ok c2 /\
    Py.float_literal "0.5" = Py.Ok c05 /\
    Py.float_literal "0.25" = Py.Ok c025 /\
    Py.float_mul c2 (S754_finite false 7074237752028440 (-51))
    = S754_finite false 7074237752028440 (-51 + 1) /\
    Py.float_mul c05 (S754_finite false 7074237752028440 (-51))
    = S754_finite false 7074237752028440 (-51 - 1) /\
    Py.float_mul c025 (S754_finite false 7074237752028440 (-51))
    = S754_finite false 7074237752028440 (-51 - 2) /\
    (Double.to_Q
       (Py.float_mul c2 (S754_finite false 7074237752028440 (-51)))
     == 2 * Double.to_Q (S754_finite false 7074237752028440 (-51)))%Q /\
    (Double.to_Q
       (Py.float_mul c05 (S754_finite false 7074237752028440 (-51)))
     == (1 # 2) * Double.to_Q (S754_finite false 7074237752028440 (-51)))%Q
    /\
    (Double.to_Q
       (Py.float_mul c025 (S754_finite false 7074237752028440 (-51)))
     == (1 # 4) * Double.to_Q (S754_finite false 7074237752028440 (-51)))%Q.
Proof.
  apply (literal_scalings_exact false 7074237752028440 (-51));
    [reflexivity | vm_compute; discriminate | lia].
Defined.

(** X7: read back as decimal literals, the sixteen fractional digits the
    script prints give again the doubles of [pi], [2pi], [pi/2], [pi/4],
    [b] and [radius], but not those of [f], [ecc2] and [ecc]: their
    texts denote doubles 45 ulps above, 19 ulps below and 1 ulp above
    the computed ones. *)
Theorem printed_text_read_back :
  script_yields (fun g out =>
    exists f' ecc2' ecc',
      map (read_back 16) (printed_values out)
      = map Ok (firstn 4 (printed_values out))
        ++ [Ok f'; Ok ecc2'; Ok ecc'; Ok (b g); Ok (radius g)] /\
      (to_Q f' - to_Q (f g) == 45 * ulp (f g))%Q /\
      (to_Q (ecc2 g) - to_Q ecc2' == 19 * ulp (ecc2 g))%Q /\
      (to_Q ecc' - to_Q (ecc g) == ulp (ecc g))%Q).
Proof.
  run_script. do 3 eexists.
  split; [vm_compute; reflexivity|].
  repeat split; decide_closed.
Qed.

(** X8: measured against the formulas evaluated without any rounding on
    the decimal literals [6378137.0] and [298.257223563], [f] and [ecc2]
    are within one ulp of the exact values ([f] is more than half an ulp
    off, so it is not the nearest double), the exact eccentricity lies
    within one ulp of [ecc], and [b] and [radius] are the doubles
    nearest to the exact values. *)
Theorem constants_close_to_exact :
  script_yields (fun g _ =>
    let F := (1000000000 # 298257223563)%Q in
    let A := 6378137%Q in
    let E2 := (2 * F - F * F)%Q in
    (Qabs (to_Q (f g) - F) < ulp (f g))%Q /\
    (ulp (f g) / 2 < Qabs (to_Q (f g) - F))%Q /\
    (Qabs (to_Q (ecc2 g) - E2) < ulp (ecc2 g))%Q /\
    (0 < to_Q (ecc g) - ulp (ecc g))%Q /\
    ((to_Q (ecc g) - ulp (ecc g)) * (to_Q (ecc g) - ulp (ecc g)) < E2)%Q /\
    (E2 < (to_Q (ecc g) + ulp (ecc g)) * (to_Q (ecc g) + ulp (ecc g)))%Q /\
    nearest_double (A * (1 - F)) (b g) /\
    nearest_double ((2 * A + A * (1 - F)) / 3) (radius g)).
Proof.
  run_script. cbv zeta.
  cbv beta iota delta [pi a inv_f f ecc2 ecc b radius].
  split; [decide_closed|]. split; [decide_closed|].
  split; [decide_closed|]. split; [decide_closed|].
  split; [decide_closed|]. split; [decide_closed|].
  split; prove_nearest.
Qed.

Section IntConversion.

Import Double Py.

Lemma iter_xO_digits (k m : positive) :
  Zpos (digits2_pos (Pos.iter xO m k)) = Zpos (digits2_pos m) + Zpos k.
Proof.
  induction k as [|k IH] using Pos.peano_ind.
  - cbn [Pos.iter digits2_pos]. lia.
  - rewrite Pos.iter_succ. cbn [digits2_pos]. lia.
Qed.

Lemma iter_xO_value (k m : positive) :
  Zpos (Pos.iter xO m k) = Zpos m * 2 ^ Zpos k.
Proof.
  induction k as [|k IH] using Pos.peano_ind.
  - cbn [Pos.iter]. lia.
  - rewrite Pos.iter_succ, Pos2Z.inj_succ, Z.pow_succ_r by lia. lia.
Qed.

(** A significand of exactly 53 bits with an exponent in range is
    already rounded. *)
Lemma binary_round_aux_exact (s : bool) (m : positive) (e : Z) :
  Zpos (digits2_pos m) = 53 -> -1074 <= e <= 971 ->
  binary_round_aux prec emax s (Zpos m) e loc_Exact = S754_finite s m e.
Proof.
  intros Hd He. unfold binary_round_aux, shr_fexp.
  cbn [Zdigits2]. rewrite Hd.
  replace (fexp prec emax (53 + e) - e) with 0
    by (unfold fexp, emin, prec, emax; lia).
  cbn [shr shr_record_of_loc shr_m loc_of_shr_record round_nearest_even
       Zdigits2].
  rewrite Hd.
  replace (fexp prec emax (53 + e) - e) with 0
    by (unfold fexp, emin, prec, emax; lia).
  cbn [shr shr_m].
  replace (e <=? emax - prec) with true
    by (symmetry; apply Z.leb_le; unfold emax, prec; lia).
  reflexivity.
Qed.

Lemma binary_round_small (s : bool) (p : positive) :
  Zpos p < 2 ^ 53 ->
  exists m e,
    binary_round prec emax s p 0 = S754_finite s m e /\
    valid (S754_finite s m e) = true /\
    e <= 0 /\ Zpos m = Zpos p * 2 ^ (- e).
Proof.
  intros Hp.
  pose proof (digits2_pos_bounds p) as [Hlo Hhi].
  set (d := Zpos (digits2_pos p)) in *.
  assert (Hd0 : 0 < d) by (unfold d; lia).
  assert (Hd : d <= 53).
  { destruct (Z_le_gt_dec d 53) as [A | A]; [exact A | exfalso].
    assert (2 ^ 53 <= 2 ^ (d - 1)) by (apply Z.pow_le_mono_r; lia). lia. }
  unfold binary_round, shl_align.
  replace (fexp prec emax (Zpos (digits2_pos p) + 0)) with (d - 53)
    by (unfold fexp, emin, prec, emax; fold d; lia).
  rewrite Z.sub_0_r.
  destruct (d - 53) as [|q|q] eqn:E; [| lia |].
  - exists p, 0. rewrite binary_round_aux_exact by (fold d; lia).
    split; [reflexivity|]. split.
    + unfold valid, valid_binary, bounded, canonical_mantissa.
      fold d. replace d with 53 by lia. reflexivity.
    + split; [lia|]. cbn. lia.
  - exists (Pos.iter xO p q), (Zneg q).
    pose proof (iter_xO_digits q p) as Hdig. fold d in Hdig.
    rewrite binary_round_aux_exact by lia.
    split; [reflexivity|]. split.
    + unfold valid, valid_binary, bounded, canonical_mantissa.
      rewrite Hdig. replace (d + Zpos q) with 53 by lia.
      apply andb_true_intro. split.
      * apply Z.eqb_eq. unfold fexp, emin, prec, emax. lia.
      * apply Z.leb_le. unfold prec, emax. lia.
    + split; [lia|]. rewrite iter_xO_value. reflexivity.
Qed.

Lemma to_Q_of_scaled (s : bool) (p m : positive) (e : Z) :
  e <= 0 -> Zpos m = Zpos p * 2 ^ (- e) ->
  (to_Q (S754_finite s m e) == inject_Z (signed s p))%Q.
Proof.
  intros He Hm. cbn [to_Q].
  assert (Hs : signed s m = signed s p * 2 ^ (- e))
    by (destruct s; cbn [signed]; lia).
  rewrite Hs, inject_Z_mult, <- pow2_inject by lia.
  rewrite <- Qmult_assoc, <- pow2_add.
  replace (- e + e) with 0 by lia.
  change (pow2 0) with 1%Q. ring.
Qed.

End IntConversion.

(** X9: an [int] operand below [2 ^ 53] in magnitude (the script's [2],
    [1] and [3]) becomes a double of exactly its value. *)
Theorem of_int_exact (n : Z) :
  - 2 ^ 53 < n < 2 ^ 53 ->
  Double.valid (Double.of_int n) = true /\
  Double.is_finite (Double.of_int n) = true /\
  (Double.to_Q (Double.of_int n) == inject_Z n)%Q.
Proof.
  intros Hn. destruct n as [|p|p].
  - repeat split; reflexivity.
  - destruct (binary_round_small false p ltac:(lia))
      as (m & e & E & V & He & Hm).
    unfold Double.of_int, binary_normalize. rewrite E.
    split; [exact V|]. split; [reflexivity|].
    now apply (to_Q_of_scaled false p m e).
  - destruct (binary_round_small true p ltac:(lia))
      as (m & e & E & V & He & Hm).
    unfold Double.of_int, binary_normalize. rewrite E.
    split; [exact V|]. split; [reflexivity|].
    now apply (to_Q_of_scaled true p m e).
Qed.

Lemma of_int_exact_witness :
  Double.valid (Double.of_int 3) = true /\
  Double.is_finite (Double.of_int 3) = true /\
  (Double.to_Q (Double.of_int 3) == inject_Z 3)%Q.
Proof.
  apply of_int_exact. split; vm_compute; reflexivity.
Defined.
